(** * griffe: the logger registry and the call-keyword extractor

    A shallow embedding of [_griffe/logger.py] (class [_Logger] with its
    class-level registry [_instances] and factory [_default_logger]) and of
    [griffe/agents/nodes/_parameters.py] ([get_call_keyword_arguments]),
    followed by the properties the specification states about them.

    Python objects are modelled by a heap of instances addressed by
    locations, so that "the same instance" is equality of locations.
    Python dictionaries are modelled by association lists kept in insertion
    order, because both the iteration order of [_patch_loggers] and the
    order of the mapping built by [get_call_keyword_arguments] are
    observable. *)

From Stdlib Require Import String.
From stdpp Require Import base option list strings.

Local Open Scope string_scope.
Local Open Scope list_scope.

(** ** Python dictionaries with string keys

    [dict_get d k] is [d.get(k)], [dict_contains] is [k in d], and
    [dict_set k v d] is [d[k] = v]: an existing key keeps its position and
    takes the new value, a new key is appended. *)

Module PyDict.
Section dict.
Context {V : Type}.

Fixpoint dict_get (d : list (string * V)) (k : string) : option V :=
  match d with
  | [] => None
  | (k', v) :: d' => if String.eqb k k' then Some v else dict_get d' k
  end.

Definition dict_contains (d : list (string * V)) (k : string) : bool :=
  match dict_get d k with Some _ => true | None => false end.

Fixpoint dict_set (k : string) (v : V) (d : list (string * V))
  : list (string * V) :=
  match d with
  | [] => [(k, v)]
  | (k', v') :: d' =>
      if String.eqb k k' then (k', v) :: d' else (k', v') :: dict_set k v d'
  end.

Definition keys (d : list (string * V)) : list string := map fst d.
Definition values (d : list (string * V)) : list V := map snd d.
End dict.
End PyDict.

(** ** The logger registry ([_griffe/logger.py])

    The module keeps two pieces of class-level state, [_instances] and
    [_default_logger], and one attribute [_logger] per instance.  A
    computation is a function from the memory to an outcome (a returned
    value or a raised exception) and the memory it leaves behind: an
    exception does not roll the memory back. *)

Module Logger.
Import PyDict.

(** Object identity: the address of an instance in the heap. *)
Definition loc := nat.

Section registry.
(** What a backend factory returns, what attribute access on it yields,
    and the exceptions user code may raise. *)
Context {Backend Attr Exn : Type}.

Inductive exception :=
| KeyError (key : string)
| RecursionError
| UserError (e : Exn).

Inductive outcome (A : Type) :=
| Returned (a : A)
| Raised (e : exception).
Arguments Returned {A} a.
Arguments Raised {A} e.

(** [getattr(backend, name)] on the backend objects. *)
Variable getattr : Backend -> string -> outcome Attr.

(** A backend factory, [Callable[[str], Any]]: it may raise. It is
    modelled as a function of the name alone. *)
Definition factory := string -> outcome Backend.

(** An instance of [_Logger]: its attribute [_logger], absent until
    [__init__] assigns it. *)
Record _Logger := mk_Logger { _logger : option Backend }.

Record memory := mk_memory {
  heap : list _Logger;
  _instances : list (string * loc);
  _default_logger : factory
}.

Definition M (A : Type) := memory -> outcome A * memory.

Definition ret {A} (a : A) : M A := fun m => (Returned a, m).

Definition bind {A B} (c : M A) (k : A -> M B) : M B :=
  fun m =>
    match c m with
    | (Returned a, m') => k a m'
    | (Raised e, m') => (Raised e, m')
    end.

Notation "x <- c ;; k" := (bind c (fun x => k))
  (at level 100, c at next level, right associativity).
Notation "c ;;; k" := (bind c (fun _ => k))
  (at level 100, right associativity).

(** Calling a factory. *)
Definition call (f : factory) (name : string) : M Backend :=
  fun m => (f name, m).

(** [self.__class__._default_logger] *)
Definition get_default_logger : M factory :=
  fun m => (Returned (_default_logger m), m).

(** [cls._default_logger = f] *)
Definition set_default_logger (f : factory) : M unit :=
  fun m => (Returned tt, mk_memory (heap m) (_instances m) f).

(** [object.__new__(cls)]: a fresh instance without attributes. *)
Definition __new__ : M loc :=
  fun m => (Returned (length (heap m)),
            mk_memory (heap m ++ [mk_Logger None])
                      (_instances m) (_default_logger m)).

(** [self._logger = b].  [self] is a reference to a live instance, so the
    index is always in range; stdpp's insert leaves the heap unchanged
    otherwise. *)
Definition set_logger (self : loc) (b : Backend) : M unit :=
  fun m => (Returned tt,
            mk_memory (<[self := mk_Logger (Some b)]> (heap m))
                      (_instances m) (_default_logger m)).

(** [name not in cls._instances] *)
Definition instances_lacks (name : string) : M bool :=
  fun m => (Returned (negb (dict_contains (_instances m) name)), m).

(** [cls._instances[name] = self] *)
Definition instances_setitem (name : string) (self : loc) : M unit :=
  fun m => (Returned tt,
            mk_memory (heap m) (dict_set name self (_instances m))
                      (_default_logger m)).

(** [cls._instances[name]] *)
Definition instances_getitem (name : string) : M loc :=
  fun m => match dict_get (_instances m) name with
           | Some self => (Returned self, m)
           | None => (Raised (KeyError name), m)
           end.

(** [cls._instances.items()] *)
Definition instances_items : M (list (string * loc)) :=
  fun m => (Returned (_instances m), m).

(** [_Logger.__init__] *)
Definition __init__ (self : loc) (name : string) : M unit :=
  f <- get_default_logger ;;
  b <- call f name ;;
  set_logger self b.

(** [cls(name)]: allocation followed by [__init__]. *)
Definition new_Logger (name : string) : M loc :=
  self <- __new__ ;;
  __init__ self name ;;;
  ret self.

(** [_Logger.__getattr__]: [getattr(self._logger, name)].  Reading
    [self._logger] on an instance that lacks the attribute re-enters
    [__getattr__] without end, which Python reports as a
    [RecursionError]. *)
Definition __getattr__ (self : loc) (name : string) : M Attr :=
  fun m => match heap m !! self ≫= _logger with
           | Some b => (getattr b name, m)
           | None => (Raised RecursionError, m)
           end.

(** [_Logger.get] *)
Definition get (name : string) : M loc :=
  absent <- instances_lacks name ;;
  (if absent : bool
   then self <- new_Logger name ;; instances_setitem name self
   else ret tt) ;;;
  instances_getitem name.

(** The loop of [_patch_loggers] over the items of the registry. *)
Fixpoint patch_instances (f : factory) (items : list (string * loc))
  : M unit :=
  match items with
  | [] => ret tt
  | (name, instance) :: rest =>
      b <- call f name ;;
      set_logger instance b ;;;
      patch_instances f rest
  end.

(** [_Logger._patch_loggers] *)
Definition _patch_loggers (get_logger_func : factory) : M unit :=
  items <- instances_items ;;
  patch_instances get_logger_func items ;;;
  set_default_logger get_logger_func.

(** The module-level functions. *)
Definition get_logger (name : string) : M loc := get name.
Definition patch_loggers (get_logger_func : factory) : M unit :=
  _patch_loggers get_logger_func.

(** The backend a handle currently delegates to. *)
Definition delegate (m : memory) (h : loc) : option Backend :=
  heap m !! h ≫= _logger.

(** *** Histories

    The memory when the module is imported, and the memories that calls
    of the two public functions lead to.  A caller may catch an exception
    and go on, so a history continues after a call that raised. *)

(** [logging.getLogger], the initial factory. *)
Variable getLogger : factory.

Definition initial : memory := mk_memory [] [] getLogger.

Inductive op :=
| Get (name : string)
| Patch (f : factory).

Definition exec (o : op) (m : memory) : memory :=
  match o with
  | Get name => snd (get_logger name m)
  | Patch f => snd (patch_loggers f m)
  end.

Definition run (os : list op) (m : memory) : memory :=
  fold_left (fun m o => exec o m) os m.

Definition reachable (m : memory) : Prop :=
  exists os, m = run os initial.

Definition is_Get (o : op) : bool :=
  match o with Get _ => true | Patch _ => false end.

(** [f] returns on the name of every item. *)
Definition returns_on (f : factory) (items : list (string * loc)) : Prop :=
  Forall (fun it => exists b, f it.1 = Returned b) items.

(** The shape of the registry: one entry per name, one name per instance,
    and every registered instance has been initialised. *)
Definition wf (m : memory) : Prop :=
  NoDup (keys (_instances m)) /\
  NoDup (values (_instances m)) /\
  Forall (fun h => is_Some (delegate m h)) (values (_instances m)).

(** Every call of [patch_loggers] in the history returned. *)
Fixpoint patches_returned (os : list op) (m : memory) : Prop :=
  match os with
  | [] => True
  | o :: os' =>
      match o with
      | Get _ => True
      | Patch f => fst (patch_loggers f m) = Returned tt
      end /\ patches_returned os' (exec o m)
  end.

(** Every registered handle delegates to the backend the factory in use
    gives for the handle's name. *)
Definition in_step (m : memory) : Prop :=
  forall n h,
    dict_get (_instances m) n = Some h ->
    exists b, _default_logger m n = Returned b /\ delegate m h = Some b.

End registry.

Arguments Returned {Exn A} a.
Arguments Raised {Exn A} e.

End Logger.

(** ** The call-keyword extractor ([griffe/agents/nodes/_parameters.py]) *)

Module Parameters.
Import PyDict.

Section extractor.
(** Expression nodes of the syntax tree, the enclosing [Module | Class],
    and what the expression resolver returns. *)
Context {expr Scope Resolved : Type}.

(** [ast.keyword]: [arg] is [None] for the double-star form. *)
Record keyword := mk_keyword { arg : option string; value : expr }.

(** [ast.Call] *)
Record Call := mk_Call {
  func : expr;
  args : list expr;
  keywords : list keyword
}.

(** [griffe.agents.nodes._expressions.safe_get_expression], assumed total. *)
Variable safe_get_expression : expr -> Scope -> Resolved.

(** The truth value of [kw.arg]: [None] and the empty string are false. *)
Definition truthy (a : option string) : bool :=
  match a with
  | None => false
  | Some s => negb (String.eqb s "")
  end.

(** One iteration of the comprehension: the entry is stored when the
    condition [if kw.arg] holds. *)
Definition comprehension_step (parent : Scope)
  (d : list (string * Resolved)) (kw : keyword) : list (string * Resolved) :=
  match arg kw with
  | Some k =>
      if truthy (arg kw)
      then dict_set k (safe_get_expression (value kw) parent) d
      else d
  | None => d
  end.

(** [{kw.arg: safe_get_expression(kw.value, parent)
      for kw in node.keywords if kw.arg}] *)
Definition get_call_keyword_arguments (node : Call) (parent : Scope)
  : list (string * Resolved) :=
  fold_left (comprehension_step parent) (keywords node) [].

(** The double-star form [**mapping]: a keyword without a name. *)
Definition is_splat (kw : keyword) : bool :=
  match arg kw with None => true | Some _ => false end.

(** A keyword argument written [name=value] in the source: its [arg] is an
    identifier, hence a non-empty string. *)
Definition literal_name (kw : keyword) (n : string) : Prop :=
  arg kw = Some n /\ n <> "".

(** The name under which a keyword is stored: its [arg] when the
    condition [if kw.arg] holds. *)
Definition kept_name (kw : keyword) : option string :=
  match arg kw with
  | Some k => if truthy (arg kw) then Some k else None
  | None => None
  end.

(** [kw] is stored under the name [k]. *)
Definition binds (k : string) (kw : keyword) : bool :=
  match kept_name kw with
  | Some n => String.eqb n k
  | None => false
  end.

(** A list of names without its repetitions, each name at the place of
    its first occurrence. *)
Fixpoint first_occurrences (l : list string) : list string :=
  match l with
  | [] => []
  | x :: l' =>
      x :: List.filter (fun y => negb (String.eqb y x)) (first_occurrences l')
  end.

End extractor.
End Parameters.

(** ** The log levels ([LogLevel] of [_griffe/logger.py]) *)

Module Levels.

Inductive LogLevel :=
| trace
| debug
| info
| success
| warning
| error
| critical.

(** The value assigned to each member in the class body. *)
Definition value (l : LogLevel) : string :=
  match l with
  | trace => "trace"
  | debug => "debug"
  | info => "info"
  | success => "success"
  | warning => "warning"
  | error => "error"
  | critical => "critical"
  end.

End Levels.

(** ** Concrete inputs used to exercise the statements below *)

Module Examples.
Import Logger Parameters.

(** Backends and attributes are strings that record where they come from;
    user exceptions carry a message. *)
Definition std_getLogger : @factory string string :=
  fun name => Returned (String.append "logging:" name).

Definition mkdocs_get_logger : @factory string string :=
  fun name => Returned (String.append "mkdocs.plugins." name).

Definition broken_get_logger : @factory string string :=
  fun name =>
    if String.eqb name "griffe.b"
    then Raised (UserError "boom")
    else Returned (String.append "patched:" name).

Definition str_getattr (b a : string) : @outcome string string :=
  Returned (String.append b (String.append "." a)).

Definition three_loggers : @memory string string :=
  run [Get "griffe.a"; Get "griffe.b"; Get "griffe.c"] (initial std_getLogger).

(** A few expression nodes and a resolver that tags them with the scope. *)
Inductive ex_expr :=
| Constant (n : nat)
| Name (id : string).

Definition ex_resolve (e : ex_expr) (parent : string) : string * ex_expr :=
  (parent, e).

Definition kw_a1 : @keyword ex_expr := mk_keyword (Some "a") (Constant 1).
Definition kw_b2 : @keyword ex_expr := mk_keyword (Some "b") (Constant 2).
Definition kw_a3 : @keyword ex_expr := mk_keyword (Some "a") (Constant 3).
Definition kw_splat : @keyword ex_expr := mk_keyword None (Name "kwargs").

Definition call_of (kws : list (@keyword ex_expr)) : @Call ex_expr :=
  mk_Call (Name "f") [] kws.

End Examples.

(** * Properties *)

(** ** Facts about dictionaries *)

Module PyDictFacts.
Import PyDict.

Section dict_facts.
Context {V : Type}.
Implicit Types (d : list (string * V)) (k : string) (v : V).

Lemma dict_get_None d k : dict_get d k = None <-> k ∉ keys d.
Proof.
  induction d as [|[k' v] d IH]; simpl.
  - split; [intros _ H; inversion H | done].
  - destruct (String.eqb_spec k k') as [->|Hne].
    + split; [done | intros H; exfalso; apply H; constructor].
    + rewrite IH. split.
      * intros H Hin. inversion Hin; subst; [congruence | by apply H].
      * intros H Hin. apply H. by constructor.
Qed.

Lemma dict_get_Some_elem d k v : dict_get d k = Some v -> (k, v) ∈ d.
Proof.
  induction d as [|[k' v'] d IH]; simpl; [done |].
  destruct (String.eqb_spec k k') as [->|Hne].
  - intros [= ->]. constructor.
  - intros H. constructor. by apply IH.
Qed.

Lemma elem_dict_get d k v :
  NoDup (keys d) -> (k, v) ∈ d -> dict_get d k = Some v.
Proof.
  induction d as [|[k' v'] d IH]; simpl; intros Hnd Hin.
  - inversion Hin.
  - apply NoDup_cons in Hnd as [Hk' Hnd].
    apply elem_of_cons in Hin as [[= <- <-]|Hin].
    + by rewrite String.eqb_refl.
    + destruct (String.eqb_spec k k') as [->|Hne]; [| by apply IH].
      exfalso. apply Hk'. unfold keys.
      apply list_elem_of_fmap. by exists (k', v).
Qed.

Lemma dict_set_fresh d k v : k ∉ keys d -> dict_set k v d = d ++ [(k, v)].
Proof.
  induction d as [|[k' v'] d IH]; simpl; intros Hk; [done |].
  destruct (String.eqb_spec k k') as [->|Hne].
  - exfalso. apply Hk. constructor.
  - rewrite IH; [done |]. intros Hin. apply Hk. by constructor.
Qed.

Lemma dict_set_keys_present d k v :
  k ∈ keys d -> keys (dict_set k v d) = keys d.
Proof.
  induction d as [|[k' v'] d IH]; simpl; intros Hk.
  - inversion Hk.
  - destruct (String.eqb_spec k k') as [->|Hne]; [done |].
    simpl. f_equal. apply IH.
    apply elem_of_cons in Hk as [?|?]; [congruence | done].
Qed.

Lemma dict_get_set_eq d k v : dict_get (dict_set k v d) k = Some v.
Proof.
  induction d as [|[k' v'] d IH]; simpl.
  - by rewrite String.eqb_refl.
  - destruct (String.eqb_spec k k') as [->|Hne]; simpl.
    + by rewrite String.eqb_refl.
    + destruct (String.eqb_spec k k'); [congruence | done].
Qed.

Lemma dict_get_set_ne d k k0 v :
  k0 <> k -> dict_get (dict_set k v d) k0 = dict_get d k0.
Proof.
  intros Hne. induction d as [|[k' v'] d IH]; simpl.
  - destruct (String.eqb_spec k0 k); [congruence | done].
  - destruct (String.eqb_spec k k') as [->|Hne']; simpl.
    + destruct (String.eqb_spec k0 k'); [congruence | done].
    + by rewrite IH.
Qed.

Lemma dict_set_NoDup d k v : NoDup (keys d) -> NoDup (keys (dict_set k v d)).
Proof.
  intros Hnd. destruct (decide (k ∈ keys d)) as [Hin|Hnin].
  - by rewrite dict_set_keys_present.
  - rewrite dict_set_fresh by done. unfold keys. rewrite map_app. simpl.
    apply NoDup_app. split; [done |]. split.
    + intros x Hx Hx'. apply list_elem_of_singleton in Hx'. by subst.
    + apply NoDup_singleton.
Qed.
Lemma dict_get_values_inj d k1 k2 v :
  NoDup (values d) -> dict_get d k1 = Some v -> dict_get d k2 = Some v ->
  k1 = k2.
Proof.
  induction d as [|[k' v'] d IH]; simpl; [done |].
  intros Hnd H1 H2. apply NoDup_cons in Hnd as [Hv' Hnd].
  assert (Hin : forall k, dict_get d k = Some v' -> False).
  { intros k Hk. apply Hv'. apply dict_get_Some_elem in Hk.
    unfold values. apply list_elem_of_fmap. by exists (k, v'). }
  destruct (String.eqb_spec k1 k') as [->|Hne1];
    destruct (String.eqb_spec k2 k') as [->|Hne2]; try done.
  - injection H1 as ->. by destruct (Hin k2).
  - injection H2 as ->. by destruct (Hin k1).
  - by apply IH.
Qed.

End dict_facts.
End PyDictFacts.

(** ** Facts about the logger registry *)

Module LoggerFacts.
Import PyDict PyDictFacts Logger.

Section registry_facts.
Context {Backend Attr Exn : Type}.
Variable getattr : Backend -> string -> @outcome Exn Attr.
Variable getLogger : @factory Backend Exn.

Implicit Types (m : @memory Backend Exn) (f : @factory Backend Exn).
Implicit Types (h : loc) (n name : string) (b : Backend).
Implicit Types (items : list (string * loc)).

(** *** What [get] does, case by case *)

Lemma insert_last {A} (l : list A) (x y : A) :
  <[length l := y]> (l ++ [x]) = l ++ [y].
Proof.
  rewrite insert_app_r_alt by lia. by rewrite Nat.sub_diag.
Qed.

Lemma get_registered name m h :
  dict_get (_instances m) name = Some h ->
  get name m = (Returned h, m).
Proof.
  intros Hget.
  unfold get, bind, instances_lacks, instances_getitem, dict_contains, ret.
  simpl. rewrite Hget. simpl. by rewrite Hget.
Qed.

Lemma get_fresh_returned name m b :
  dict_get (_instances m) name = None ->
  _default_logger m name = Returned b ->
  get name m =
    (Returned (length (heap m)),
     mk_memory (heap m ++ [mk_Logger (Some b)])
               (_instances m ++ [(name, length (heap m))])
               (_default_logger m)).
Proof.
  intros Hget Hf.
  unfold get, bind, instances_lacks, instances_getitem, dict_contains, ret,
    new_Logger, __new__, __init__, get_default_logger, call, set_logger,
    instances_setitem, bind.
  simpl. rewrite Hget. simpl. rewrite Hf. simpl.
  rewrite dict_get_set_eq, insert_last.
  rewrite dict_set_fresh by by apply dict_get_None.
  done.
Qed.

Lemma get_fresh_raised name m e :
  dict_get (_instances m) name = None ->
  _default_logger m name = Raised e ->
  get name m =
    (Raised e,
     mk_memory (heap m ++ [mk_Logger None]) (_instances m)
               (_default_logger m)).
Proof.
  intros Hget Hf.
  unfold get, bind, instances_lacks, instances_getitem, dict_contains, ret,
    new_Logger, __new__, __init__, get_default_logger, call, set_logger,
    instances_setitem, bind.
  simpl. rewrite Hget. simpl. by rewrite Hf.
Qed.

(** The three cases are exhaustive. *)
Lemma get_cases name m :
  (exists h, dict_get (_instances m) name = Some h /\
             get name m = (Returned h, m)) \/
  (exists b, dict_get (_instances m) name = None /\
             _default_logger m name = Returned b /\
             get name m =
               (Returned (length (heap m)),
                mk_memory (heap m ++ [mk_Logger (Some b)])
                          (_instances m ++ [(name, length (heap m))])
                          (_default_logger m))) \/
  (exists e, dict_get (_instances m) name = None /\
             _default_logger m name = Raised e /\
             get name m =
               (Raised e,
                mk_memory (heap m ++ [mk_Logger None]) (_instances m)
                          (_default_logger m))).
Proof.
  destruct (dict_get (_instances m) name) as [h|] eqn:Hget.
  - left. exists h. split; [done |]. by apply get_registered.
  - right. destruct (_default_logger m name) as [b|e] eqn:Hf.
    + left. exists b. repeat split; try done. by apply get_fresh_returned.
    + right. exists e. repeat split; try done. by apply get_fresh_raised.
Qed.

(** A returned handle is the one registered under the name. *)
Lemma get_returned_registered name m h m' :
  get name m = (Returned h, m') ->
  dict_get (_instances m') name = Some h.
Proof.
  destruct (get_cases name m) as [(h0 & Hh0 & ->)|[(b & Hn & _ & ->)|(e & _ & _ & ->)]].
  - by intros [= <- <-].
  - intros [= <- <-]. simpl.
    rewrite <- (dict_set_fresh (_instances m)) by by apply dict_get_None.
    apply dict_get_set_eq.
  - done.
Qed.

Lemma dict_get_app_l {V} (d d' : list (string * V)) k v :
  dict_get d k = Some v -> dict_get (d ++ d') k = Some v.
Proof.
  induction d as [|[k' v'] d IH]; simpl; [done |].
  by destruct (String.eqb k k').
Qed.

(** [get] never removes or rebinds an entry of the registry. *)
Lemma get_keeps_entries name m n h :
  dict_get (_instances m) n = Some h ->
  dict_get (_instances (snd (get name m))) n = Some h.
Proof.
  intros Hn.
  destruct (get_cases name m) as [(h0 & _ & ->)|[(b & _ & _ & ->)|(e & _ & _ & ->)]];
    simpl; [done | | done].
  by apply dict_get_app_l.
Qed.

(** [get] leaves the delegate of every initialised instance alone. *)
Lemma get_keeps_delegate name m h b :
  delegate m h = Some b ->
  delegate (snd (get name m)) h = Some b.
Proof.
  unfold delegate. intros Hd.
  assert (Hlt : h < length (heap m)).
  { destruct (heap m !! h) eqn:E; [| done]. by eapply lookup_lt_Some. }
  destruct (get_cases name m) as [(h0 & _ & ->)|[(b0 & _ & _ & ->)|(e & _ & _ & ->)]];
    simpl; [done | |]; by rewrite lookup_app_l.
Qed.

Lemma get_keeps_default_logger name m :
  _default_logger (snd (get name m)) = _default_logger m.
Proof.
  by destruct (get_cases name m) as [(h0 & _ & ->)|[(b0 & _ & _ & ->)|(e & _ & _ & ->)]].
Qed.

(** *** What the loop of [_patch_loggers] does *)

Lemma patch_instances_frame f items m :
  _instances (snd (patch_instances f items m)) = _instances m /\
  _default_logger (snd (patch_instances f items m)) = _default_logger m /\
  length (heap (snd (patch_instances f items m))) = length (heap m).
Proof.
  revert m. induction items as [|[n h] items IH]; intros m; simpl; [done |].
  unfold bind, call, set_logger. destruct (f n) as [b|e]; simpl; [| done].
  destruct (IH (mk_memory (<[h:=mk_Logger (Some b)]> (heap m))
                          (_instances m) (_default_logger m)))
    as (H1 & H2 & H3).
  rewrite H1, H2, H3. simpl. by rewrite length_insert.
Qed.

(** Instances that are not among the items are not touched. *)
Lemma patch_instances_other f items m h :
  h ∉ values items ->
  heap (snd (patch_instances f items m)) !! h = heap m !! h.
Proof.
  revert m. induction items as [|[n h0] items IH]; intros m Hh; simpl; [done |].
  apply not_elem_of_cons in Hh as [Hne Hh].
  unfold bind, call, set_logger. destruct (f n) as [b|e]; simpl; [| done].
  rewrite IH by done. simpl. by apply list_lookup_insert_ne.
Qed.

(** An initialised instance stays initialised. *)
Lemma patch_instances_is_Some f items m h :
  is_Some (delegate m h) ->
  is_Some (delegate (snd (patch_instances f items m)) h).
Proof.
  revert m. induction items as [|[n h0] items IH]; intros m Hh; simpl; [done |].
  unfold bind, call, set_logger. destruct (f n) as [b|e]; simpl; [| done].
  apply IH. unfold delegate in *. simpl.
  destruct (decide (h0 = h)) as [->|Hne].
  - destruct (heap m !! h) eqn:E; [| by destruct Hh].
    rewrite list_lookup_insert_eq by by eapply lookup_lt_Some. by eexists.
  - by rewrite list_lookup_insert_ne.
Qed.

Lemma patch_instances_app f pre post m :
  patch_instances f (pre ++ post) m =
  bind (patch_instances f pre) (fun _ => patch_instances f post) m.
Proof.
  revert m. induction pre as [|[n h] pre IH]; intros m; simpl; [done |].
  unfold bind, call, set_logger in *. destruct (f n) as [b|e]; simpl; [| done].
  by rewrite IH.
Qed.

(** The loop returns exactly when the factory returns on every item. *)
Lemma patch_instances_returns f items m :
  returns_on f items -> fst (patch_instances f items m) = Returned tt.
Proof.
  revert m. induction items as [|[n h] items IH]; intros m Hok; simpl; [done |].
  apply Forall_cons in Hok as [[b Hb] Hok]. simpl in Hb.
  unfold bind, call, set_logger. rewrite Hb. simpl. by apply IH.
Qed.

Lemma patch_instances_returned_inv f items m u :
  fst (patch_instances f items m) = Returned u -> returns_on f items.
Proof.
  revert m. induction items as [|[n h] items IH]; intros m; simpl.
  - intros _. constructor.
  - unfold bind, call, set_logger. destruct (f n) as [b|e] eqn:Hb; simpl; [| done].
    intros H. constructor; [by exists b | by eapply IH].
Qed.

(** After a loop that returned, each item's instance holds the backend the
    factory gave for the item's name. *)
Lemma patch_instances_rebinds f items m n h b :
  NoDup (values items) ->
  Forall (fun h => h < length (heap m)) (values items) ->
  returns_on f items ->
  (n, h) ∈ items -> f n = Returned b ->
  delegate (snd (patch_instances f items m)) h = Some b.
Proof.
  revert m. induction items as [|[n0 h0] items IH]; intros m Hnd Hlt Hok Hin Hb.
  - inversion Hin.
  - simpl in Hnd, Hlt. apply NoDup_cons in Hnd as [Hh0 Hnd].
    apply Forall_cons in Hlt as [Hlt0 Hlt].
    apply Forall_cons in Hok as [[b0 Hb0] Hok]. simpl in Hb0.
    simpl. unfold bind, call, set_logger. rewrite Hb0. simpl.
    apply elem_of_cons in Hin as [[= -> ->]|Hin].
    + unfold delegate. rewrite patch_instances_other by done. simpl.
      rewrite list_lookup_insert_eq by done. simpl. congruence.
    + apply IH; try done. simpl. by rewrite length_insert.
Qed.

(** When the factory raises at an item, the loop stops there: the
    exception comes out and the memory is the one the earlier items left. *)
Lemma patch_instances_raises f pre n h post m e :
  returns_on f pre -> f n = Raised e ->
  patch_instances f (pre ++ (n, h) :: post) m =
  (Raised e, snd (patch_instances f pre m)).
Proof.
  intros Hok He. rewrite patch_instances_app. unfold bind at 1.
  pose proof (patch_instances_returns f pre m Hok) as Hret.
  destruct (patch_instances f pre m) as [[[]|e'] m']; simpl in *; [| done].
  unfold bind, call. by rewrite He.
Qed.

Lemma _patch_loggers_unfold f m :
  _patch_loggers f m =
  match patch_instances f (_instances m) m with
  | (Returned _, m') =>
      (Returned tt, mk_memory (heap m') (_instances m') f)
  | (Raised e, m') => (Raised e, m')
  end.
Proof.
  unfold _patch_loggers, bind, instances_items, set_default_logger.
  by destruct (patch_instances f (_instances m) m) as [[[]|e] m'].
Qed.

Lemma _patch_loggers_instances f m :
  _instances (snd (_patch_loggers f m)) = _instances m.
Proof.
  rewrite _patch_loggers_unfold.
  destruct (patch_instances_frame f (_instances m) m) as (H & _ & _).
  by destruct (patch_instances f (_instances m) m) as [[[]|e] m'].
Qed.

Lemma _patch_loggers_heap_length f m :
  length (heap (snd (_patch_loggers f m))) = length (heap m).
Proof.
  rewrite _patch_loggers_unfold.
  destruct (patch_instances_frame f (_instances m) m) as (_ & _ & H).
  by destruct (patch_instances f (_instances m) m) as [[[]|e] m'].
Qed.

Lemma _patch_loggers_heap f m :
  heap (snd (_patch_loggers f m)) =
  heap (snd (patch_instances f (_instances m) m)).
Proof.
  rewrite _patch_loggers_unfold.
  by destruct (patch_instances f (_instances m) m) as [[[]|e] m'].
Qed.

(** *** The shape of the registry is kept by every call *)

Lemma delegate_lt m h : is_Some (delegate m h) -> h < length (heap m).
Proof.
  unfold delegate. intros [b Hb].
  destruct (heap m !! h) eqn:E; [| done]. by eapply lookup_lt_Some.
Qed.

Lemma wf_initial : wf (initial getLogger).
Proof. repeat split; simpl; constructor. Qed.

Lemma wf_get name m : wf m -> wf (snd (get name m)).
Proof.
  intros (Hk & Hv & Hd).
  destruct (get_cases name m)
    as [(h0 & _ & ->)|[(b & Hn & _ & ->)|(e & _ & _ & ->)]]; simpl.
  - done.
  - assert (Hlt : Forall (fun h => h < length (heap m)) (values (_instances m))).
    { eapply Forall_impl; [exact Hd |]. intros h. apply delegate_lt. }
    unfold wf, keys, values in *. simpl. rewrite !map_app. simpl.
    repeat split.
    + apply NoDup_app. repeat split; [done | | apply NoDup_singleton].
      intros x Hx Hx'. apply list_elem_of_singleton in Hx' as ->.
      by apply dict_get_None in Hn.
    + apply NoDup_app. repeat split; [done | | apply NoDup_singleton].
      intros x Hx Hx'. apply list_elem_of_singleton in Hx' as ->.
      rewrite Forall_forall in Hlt. specialize (Hlt _ Hx). lia.
    + apply Forall_app. split.
      * rewrite Forall_forall in Hd, Hlt. apply Forall_forall. intros h Hh.
        unfold delegate in *. simpl. rewrite lookup_app_l by by apply Hlt.
        by apply Hd.
      * constructor; [| constructor]. unfold delegate. simpl.
        rewrite lookup_app_r by lia. rewrite Nat.sub_diag. simpl. by eexists.
  - repeat split; try done. simpl.
    rewrite Forall_forall in Hd. apply Forall_forall. intros h Hh.
    specialize (Hd _ Hh). pose proof (delegate_lt _ _ Hd).
    unfold delegate in *. simpl. by rewrite lookup_app_l.
Qed.

Lemma wf_patch f m : wf m -> wf (snd (_patch_loggers f m)).
Proof.
  intros (Hk & Hv & Hd). unfold wf.
  rewrite _patch_loggers_instances. repeat split; try done.
  rewrite Forall_forall in Hd. apply Forall_forall. intros h Hh.
  unfold delegate. rewrite _patch_loggers_heap.
  by apply patch_instances_is_Some, Hd.
Qed.

Lemma wf_exec o m : wf m -> wf (exec o m).
Proof. destruct o; [apply wf_get | apply wf_patch]. Qed.

Lemma wf_run os m : wf m -> wf (run os m).
Proof.
  revert m. induction os as [|o os IH]; intros m Hm; simpl; [done |].
  by apply IH, wf_exec.
Qed.

Lemma reachable_wf m : reachable getLogger m -> wf m.
Proof. intros [os ->]. apply wf_run, wf_initial. Qed.

Lemma run_app os1 os2 m : run (os1 ++ os2) m = run os2 (run os1 m).
Proof. apply fold_left_app. Qed.

Lemma reachable_run os m :
  reachable getLogger m -> reachable getLogger (run os m).
Proof. intros [os0 ->]. exists (os0 ++ os). by rewrite run_app. Qed.

(** *** What a history keeps *)

Lemma exec_keeps_entries o m n h :
  dict_get (_instances m) n = Some h ->
  dict_get (_instances (exec o m)) n = Some h.
Proof.
  destruct o as [name|f]; simpl.
  - apply get_keeps_entries.
  - unfold patch_loggers. by rewrite _patch_loggers_instances.
Qed.

Lemma run_keeps_entries os m n h :
  dict_get (_instances m) n = Some h ->
  dict_get (_instances (run os m)) n = Some h.
Proof.
  revert m. induction os as [|o os IH]; intros m Hm; simpl; [done |].
  by apply IH, exec_keeps_entries.
Qed.

Lemma gets_keep_delegate os m h b :
  forallb is_Get os = true ->
  delegate m h = Some b -> delegate (run os m) h = Some b.
Proof.
  revert m. induction os as [|[name|f] os IH]; intros m Hos Hd; simpl in *;
    [done | | done].
  apply IH; [done |]. by apply get_keeps_delegate.
Qed.

Lemma gets_keep_default_logger os m :
  forallb is_Get os = true ->
  _default_logger (run os m) = _default_logger m.
Proof.
  revert m. induction os as [|[name|f] os IH]; intros m Hos; simpl in *;
    [done | | done].
  rewrite IH by done. apply get_keeps_default_logger.
Qed.

(** *** Delegation *)

Lemma delegate_appended (hp : list (@_Logger Backend)) its f b :
  delegate (mk_memory (hp ++ [mk_Logger (Some b)]) its f) (length hp) = Some b.
Proof.
  unfold delegate. simpl. rewrite lookup_app_r by lia.
  by rewrite Nat.sub_diag.
Qed.

Lemma getattr_delegate m h b a :
  delegate m h = Some b -> __getattr__ getattr h a m = (getattr b a, m).
Proof. unfold __getattr__, delegate. by intros ->. Qed.

(** *** The properties of the specification *)

(** C1: in every memory that calls of [get_logger] and [patch_loggers] can
    lead to, the registry holds at most one entry per name; a call of
    [get_logger] returns whenever the current factory returns; and once
    [get_logger name] has returned a handle, calling it again, at once or
    after any further calls of the two functions, returns the same
    instance and changes nothing. *)
Theorem get_logger_same_instance m name :
  reachable getLogger m ->
  NoDup (keys (_instances m)) /\
  (forall b, _default_logger m name = Returned b ->
     exists h m1, get_logger name m = (Returned h, m1)) /\
  (forall h m1, get_logger name m = (Returned h, m1) ->
     get_logger name m1 = (Returned h, m1) /\
     forall os, get_logger name (run os m1) = (Returned h, run os m1)).
Proof.
  intros Hr. split; [apply (reachable_wf m Hr) |]. split.
  - intros b Hb. unfold get_logger.
    destruct (get_cases name m)
      as [(h0 & _ & ->)|[(b0 & _ & _ & ->)|(e & _ & He & _)]];
      [by eauto | by eauto | congruence].
  - unfold get_logger. intros h m1 Hget.
    apply get_returned_registered in Hget.
    split; [by apply get_registered |].
    intros os. by apply get_registered, run_keeps_entries.
Qed.

(** C7: handles returned by [get_logger] for two different names are
    different instances, whatever calls happen in between. *)
Theorem get_logger_distinct_names m n1 n2 h1 h2 m1 os m2 :
  reachable getLogger m ->
  n1 <> n2 ->
  get_logger n1 m = (Returned h1, m1) ->
  get_logger n2 (run os m1) = (Returned h2, m2) ->
  h1 <> h2.
Proof.
  intros Hr Hne Hg1 Hg2 <-.
  assert (Hwf : wf m2).
  { replace m2 with (run (Get n1 :: os ++ [Get n2]) m).
    - by apply reachable_wf, reachable_run.
    - simpl. rewrite run_app. simpl. unfold get_logger in *.
      by rewrite Hg1; simpl; rewrite Hg2. }
  unfold get_logger in *.
  pose proof (get_returned_registered _ _ _ _ Hg1) as H1.
  apply (run_keeps_entries os) in H1.
  apply (get_keeps_entries n2) in H1. rewrite Hg2 in H1. simpl in H1.
  apply get_returned_registered in Hg2.
  destruct Hwf as (_ & Hv & _).
  apply Hne. by eapply dict_get_values_inj.
Qed.

(** C2: when [patch_loggers f] returns, [f] has returned a backend for the
    name of every handle registered before the call, and that backend is
    what the handle delegates to: attribute access on the handle is
    attribute access on it, until the next patch. *)
Theorem patch_loggers_rebinds_registered m f m' n h :
  reachable getLogger m ->
  dict_get (_instances m) n = Some h ->
  patch_loggers f m = (Returned tt, m') ->
  exists b,
    f n = Returned b /\
    delegate m' h = Some b /\
    forall os, forallb is_Get os = true ->
      forall a, __getattr__ getattr h a (run os m') = (getattr b a, run os m').
Proof.
  intros Hr Hn Hp. unfold patch_loggers in Hp.
  rewrite _patch_loggers_unfold in Hp.
  destruct (reachable_wf m Hr) as (_ & Hv & Hd).
  pose proof (patch_instances_returned_inv f (_instances m) m) as Hinv.
  pose proof (patch_instances_rebinds f (_instances m) m n h) as Hreb.
  destruct (patch_instances f (_instances m) m) as [[[]|e] m1]; [| done].
  injection Hp as <-. simpl in *.
  specialize (Hinv tt eq_refl).
  apply dict_get_Some_elem in Hn.
  pose proof Hinv as Hall. unfold returns_on in Hall.
  rewrite Forall_forall in Hall. destruct (Hall _ Hn) as [b Hb]. simpl in Hb.
  assert (Hdel : delegate m1 h = Some b).
  { apply Hreb; try done.
    eapply Forall_impl; [exact Hd |]. intros h0. apply delegate_lt. }
  exists b. repeat split; [done | done |].
  intros os Hos a. by apply getattr_delegate, gets_keep_delegate.
Qed.

(** C3: after [patch_loggers f] has returned, [f] is the factory in use:
    a later [get_logger n3] for a name not yet registered, with only calls
    of [get_logger] in between, returns a new handle that delegates to
    the backend [f n3]. *)
Theorem patch_loggers_sets_factory m f m' os n3 b :
  patch_loggers f m = (Returned tt, m') ->
  forallb is_Get os = true ->
  dict_get (_instances (run os m')) n3 = None ->
  f n3 = Returned b ->
  _default_logger m' = f /\
  exists h m'',
    get_logger n3 (run os m') = (Returned h, m'') /\
    delegate m'' h = Some b /\
    forall a, __getattr__ getattr h a m'' = (getattr b a, m'').
Proof.
  intros Hp Hos Hn Hb. unfold patch_loggers in Hp.
  rewrite _patch_loggers_unfold in Hp.
  assert (Hf : _default_logger m' = f).
  { destruct (patch_instances f (_instances m) m) as [[[]|e] m1]; [| done].
    by injection Hp as <-. }
  split; [done |].
  assert (Hf' : _default_logger (run os m') n3 = Returned b).
  { by rewrite gets_keep_default_logger, Hf. }
  eexists _, _. split; [by apply get_fresh_returned |].
  split; [apply delegate_appended |].
  intros a. apply getattr_delegate, delegate_appended.
Qed.

(** C8: an exception raised by the factory comes out of the call.  For
    [get_logger] on a name that is not registered, the exception of the
    current factory is the outcome and the name stays unregistered.  For
    [patch_loggers f], the exception [f] raises at the first registered
    name where it raises is the outcome. *)
Theorem factory_exception_propagates m :
  (forall name e,
     dict_get (_instances m) name = None ->
     _default_logger m name = Raised e ->
     fst (get_logger name m) = Raised e /\
     dict_get (_instances (snd (get_logger name m))) name = None) /\
  (forall f pre n h post e,
     _instances m = pre ++ (n, h) :: post ->
     returns_on f pre ->
     f n = Raised e ->
     fst (patch_loggers f m) = Raised e).
Proof.
  split.
  - intros name e Hn He. unfold get_logger.
    by rewrite (get_fresh_raised name m e Hn He).
  - intros f pre n h post e Hsplit Hok He.
    unfold patch_loggers. rewrite _patch_loggers_unfold, Hsplit.
    by rewrite (patch_instances_raises f pre n h post m e Hok He).
Qed.

(** C9: [patch_loggers] is not atomic.  When [f] returns on the entries
    [pre] of the registry and raises at the next entry, the call raises
    that exception; the handles of [pre] delegate to the backends [f] gave
    for their names; the handle at which [f] raised and all later ones
    keep the delegates they had; the factory in use and the registry are
    the ones from before the call. *)
Theorem patch_loggers_not_atomic m f pre n h post e :
  reachable getLogger m ->
  _instances m = pre ++ (n, h) :: post ->
  returns_on f pre ->
  f n = Raised e ->
  fst (patch_loggers f m) = Raised e /\
  (forall n' h', (n', h') ∈ pre ->
     exists b, f n' = Returned b /\
               delegate (snd (patch_loggers f m)) h' = Some b) /\
  (forall n' h', (n', h') ∈ (n, h) :: post ->
     delegate (snd (patch_loggers f m)) h' = delegate m h') /\
  _default_logger (snd (patch_loggers f m)) = _default_logger m /\
  _instances (snd (patch_loggers f m)) = _instances m.
Proof.
  intros Hr Hsplit Hok He.
  destruct (reachable_wf m Hr) as (_ & Hv & Hd).
  assert (Hlt : Forall (fun h => h < length (heap m)) (values (_instances m))).
  { eapply Forall_impl; [exact Hd |]. intros h0. apply delegate_lt. }
  unfold values in Hv, Hlt. rewrite Hsplit, map_app in Hv, Hlt.
  apply NoDup_app in Hv as (Hvpre & Hdisj & _).
  apply Forall_app in Hlt as [Hltpre _].
  unfold patch_loggers. rewrite _patch_loggers_unfold, Hsplit.
  rewrite (patch_instances_raises f pre n h post m e Hok He). simpl.
  destruct (patch_instances_frame f pre m) as (Hi & Hdl & _).
  split; [done |]. split; [| split; [| split]].
  - intros n' h' Hin. pose proof Hok as Hall. unfold returns_on in Hall.
    rewrite Forall_forall in Hall. destruct (Hall _ Hin) as [b Hb].
    exists b. split; [done |]. by eapply patch_instances_rebinds.
  - intros n' h' Hin. unfold delegate.
    rewrite patch_instances_other; [done |].
    intros Hpre. apply (Hdisj h' Hpre).
    change h' with (snd (n', h')). by apply list_elem_of_fmap_2.
  - done.
  - by rewrite Hi, Hsplit.
Qed.

(** C10: a call of [patch_loggers] that returns leaves the registry as it
    was, entry by entry, creates and drops no instance, and does not touch
    an instance that is not registered; what changes is the [_logger]
    attribute of the registered instances and the factory in use. *)
Theorem patch_loggers_keeps_registry m f m' :
  patch_loggers f m = (Returned tt, m') ->
  _instances m' = _instances m /\
  length (heap m') = length (heap m) /\
  (forall h, h ∉ values (_instances m) -> heap m' !! h = heap m !! h) /\
  _default_logger m' = f.
Proof.
  intros Hp.
  pose proof (_patch_loggers_instances f m) as Hi.
  pose proof (_patch_loggers_heap_length f m) as Hl.
  pose proof (_patch_loggers_heap f m) as Hh.
  unfold patch_loggers in Hp. rewrite Hp in Hi, Hl, Hh. simpl in *.
  repeat split; try done.
  - intros h Hn. rewrite Hh. by apply patch_instances_other.
  - rewrite _patch_loggers_unfold in Hp.
    destruct (patch_instances f (_instances m) m) as [[[]|e] m1]; [| done].
    by injection Hp as <-.
Qed.

End registry_facts.

(** *** The properties at concrete histories *)

Section registry_witnesses.
Import Examples.

Lemma three_loggers_reachable : reachable std_getLogger three_loggers.
Proof.
  exists [Get "griffe.a"; Get "griffe.b"; Get "griffe.c"]. reflexivity.
Defined.

Lemma get_logger_same_instance_witness :
  reachable std_getLogger three_loggers /\
  get_logger "griffe.b" three_loggers = (Returned 1, three_loggers) /\
  forall os,
    get_logger "griffe.b" (run os three_loggers) =
      (Returned 1, run os three_loggers).
Proof.
  split; [apply three_loggers_reachable |].
  split; [reflexivity |].
  apply (get_logger_same_instance std_getLogger three_loggers "griffe.b"
           three_loggers_reachable).
  reflexivity.
Defined.

Lemma get_logger_distinct_names_witness :
  reachable std_getLogger (initial std_getLogger) /\
  "griffe.a" <> "griffe.b" /\
  fst (get_logger "griffe.a" (initial std_getLogger)) = Returned 0 /\
  fst (get_logger "griffe.b"
         (run [Patch mkdocs_get_logger]
            (snd (get_logger "griffe.a" (initial std_getLogger)))))
    = Returned 1 /\
  0 <> 1.
Proof.
  assert (Hr : reachable std_getLogger (initial std_getLogger))
    by (exists []; reflexivity).
  assert (Hne : "griffe.a" <> "griffe.b") by discriminate.
  split; [exact Hr |]. split; [exact Hne |].
  split; [reflexivity |]. split; [reflexivity |].
  eapply (get_logger_distinct_names std_getLogger (initial std_getLogger)
            "griffe.a" "griffe.b" 0 1 _ [Patch mkdocs_get_logger] _ Hr Hne);
    reflexivity.
Defined.

Lemma patch_loggers_rebinds_registered_witness :
  reachable std_getLogger three_loggers /\
  dict_get (_instances three_loggers) "griffe.b" = Some 1 /\
  fst (patch_loggers mkdocs_get_logger three_loggers) = Returned tt /\
  exists b,
    mkdocs_get_logger "griffe.b" = Returned b /\
    delegate (snd (patch_loggers mkdocs_get_logger three_loggers)) 1 = Some b /\
    forall os, forallb is_Get os = true ->
      forall a,
        __getattr__ str_getattr 1 a
          (run os (snd (patch_loggers mkdocs_get_logger three_loggers))) =
        (str_getattr b a,
         run os (snd (patch_loggers mkdocs_get_logger three_loggers))).
Proof.
  split; [apply three_loggers_reachable |].
  split; [reflexivity |]. split; [reflexivity |].
  apply (patch_loggers_rebinds_registered str_getattr std_getLogger
           three_loggers mkdocs_get_logger _ "griffe.b" 1
           three_loggers_reachable); reflexivity.
Defined.

Lemma patch_loggers_sets_factory_witness :
  fst (patch_loggers mkdocs_get_logger three_loggers) = Returned tt /\
  exists h m'',
    get_logger "griffe.d"
      (run [Get "griffe.a"]
         (snd (patch_loggers mkdocs_get_logger three_loggers))) =
      (Returned h, m'') /\
    delegate m'' h = Some "mkdocs.plugins.griffe.d" /\
    forall a,
      __getattr__ str_getattr h a m'' =
        (str_getattr "mkdocs.plugins.griffe.d" a, m'').
Proof.
  split; [reflexivity |].
  apply (patch_loggers_sets_factory str_getattr three_loggers
           mkdocs_get_logger
           (snd (patch_loggers mkdocs_get_logger three_loggers))
           [Get "griffe.a"] "griffe.d" "mkdocs.plugins.griffe.d");
    reflexivity.
Defined.

Lemma factory_exception_propagates_witness :
  fst (get_logger "griffe.b" (initial broken_get_logger)) =
    Raised (UserError "boom") /\
  fst (patch_loggers broken_get_logger three_loggers) =
    Raised (UserError "boom").
Proof.
  destruct (factory_exception_propagates (initial broken_get_logger))
    as [Hget _].
  destruct (factory_exception_propagates three_loggers) as [_ Hpatch].
  split.
  - apply (Hget "griffe.b" (UserError "boom")); reflexivity.
  - apply (Hpatch broken_get_logger [("griffe.a", 0)] "griffe.b" 1
             [("griffe.c", 2)] (UserError "boom")); try reflexivity.
    repeat constructor. by eexists.
Defined.

Lemma patch_loggers_not_atomic_witness :
  fst (patch_loggers broken_get_logger three_loggers) =
    Raised (UserError "boom") /\
  delegate (snd (patch_loggers broken_get_logger three_loggers)) 0 =
    Some "patched:griffe.a" /\
  delegate (snd (patch_loggers broken_get_logger three_loggers)) 1 =
    Some "logging:griffe.b" /\
  delegate (snd (patch_loggers broken_get_logger three_loggers)) 2 =
    Some "logging:griffe.c" /\
  _default_logger (snd (patch_loggers broken_get_logger three_loggers)) =
    _default_logger three_loggers.
Proof.
  assert (Hok : returns_on broken_get_logger [("griffe.a", 0)]).
  { repeat constructor. by eexists. }
  destruct (patch_loggers_not_atomic std_getLogger three_loggers
              broken_get_logger [("griffe.a", 0)] "griffe.b" 1
              [("griffe.c", 2)] (UserError "boom")
              three_loggers_reachable eq_refl Hok eq_refl)
    as (Hraise & Hpre & Hpost & Hdef & _).
  split; [exact Hraise |].
  split.
  { destruct (Hpre "griffe.a" 0) as (b & Hb & Hd); [constructor |].
    rewrite Hd. f_equal. by injection Hb. }
  split.
  { rewrite (Hpost "griffe.b" 1); [reflexivity | constructor]. }
  split; [| exact Hdef].
  rewrite (Hpost "griffe.c" 2); [reflexivity | repeat constructor].
Defined.

Lemma patch_loggers_keeps_registry_witness :
  fst (patch_loggers mkdocs_get_logger three_loggers) = Returned tt /\
  _instances (snd (patch_loggers mkdocs_get_logger three_loggers)) =
    [("griffe.a", 0); ("griffe.b", 1); ("griffe.c", 2)] /\
  length (heap (snd (patch_loggers mkdocs_get_logger three_loggers))) = 3 /\
  _default_logger (snd (patch_loggers mkdocs_get_logger three_loggers)) =
    mkdocs_get_logger.
Proof.
  split; [reflexivity |].
  destruct (patch_loggers_keeps_registry three_loggers mkdocs_get_logger
              (snd (patch_loggers mkdocs_get_logger three_loggers)) eq_refl)
    as (Hi & Hl & _ & Hf).
  rewrite Hi, Hl. split; [reflexivity |]. split; [reflexivity | exact Hf].
Defined.

End registry_witnesses.
End LoggerFacts.

(** ** Facts about the call-keyword extractor *)

Module ParametersFacts.
Import PyDict PyDictFacts Parameters.

Section extractor_facts.
Context {expr Scope Resolved : Type}.
Variable safe_get_expression : expr -> Scope -> Resolved.

Implicit Types (kw : @keyword expr) (kws pre post : list (@keyword expr)).
Implicit Types (node : @Call expr) (parent : Scope).
Implicit Types (d : list (string * Resolved)) (n k : string).

Abbreviation step := (comprehension_step safe_get_expression).
Abbreviation resolved parent kw := (safe_get_expression (value kw) parent).

Lemma step_splat parent d kw : is_splat kw = true -> step parent d kw = d.
Proof.
  unfold is_splat, comprehension_step. by destruct (arg kw).
Qed.

Lemma step_literal parent d kw n :
  literal_name kw n -> step parent d kw = dict_set n (resolved parent kw) d.
Proof.
  intros [Ha Hn]. unfold comprehension_step. rewrite Ha. simpl.
  by destruct (String.eqb_spec n "").
Qed.

(** The condition [if kw.arg] also rejects an empty name, which no parsed
    call carries. *)
Lemma step_empty_name parent d kw :
  arg kw = Some "" -> step parent d kw = d.
Proof. intros Ha. unfold comprehension_step. by rewrite Ha. Qed.

(** A step changes the keys only by adding the keyword's own name. *)
Lemma step_keys parent d kw k :
  k ∈ keys (step parent d kw) -> k ∈ keys d \/ arg kw = Some k.
Proof.
  unfold comprehension_step. destruct (arg kw) as [n|]; [| by left].
  destruct (truthy (Some n)); [| by left].
  destruct (decide (n ∈ keys d)) as [Hin|Hnin].
  - rewrite dict_set_keys_present by done. by left.
  - rewrite dict_set_fresh by done. unfold keys. rewrite map_app. simpl.
    intros [H|H]%elem_of_app; [by left |].
    apply list_elem_of_singleton in H as ->. by right.
Qed.

Lemma step_NoDup parent d kw :
  NoDup (keys d) -> NoDup (keys (step parent d kw)).
Proof.
  intros Hd. unfold comprehension_step. destruct (arg kw) as [n|]; [| done].
  destruct (truthy (Some n)); [| done]. by apply dict_set_NoDup.
Qed.

Lemma fold_NoDup parent kws d :
  NoDup (keys d) -> NoDup (keys (fold_left (step parent) kws d)).
Proof.
  revert d. induction kws as [|kw kws IH]; intros d Hd; simpl; [done |].
  by apply IH, step_NoDup.
Qed.

Lemma fold_keys parent kws d k :
  k ∈ keys (fold_left (step parent) kws d) ->
  k ∈ keys d \/ exists kw, kw ∈ kws /\ arg kw = Some k.
Proof.
  revert d. induction kws as [|kw kws IH]; intros d; simpl; [by left |].
  intros [H|(kw' & Hin & Hk)]%IH.
  - apply step_keys in H as [H|H]; [by left |].
    right. exists kw. split; [constructor | done].
  - right. exists kw'. split; [by constructor | done].
Qed.

Lemma fold_skips_splats parent kws d :
  fold_left (step parent) kws d =
  fold_left (step parent) (List.filter (fun kw => negb (is_splat kw)) kws) d.
Proof.
  revert d. induction kws as [|kw kws IH]; intros d; simpl; [done |].
  destruct (is_splat kw) eqn:E; simpl.
  - by rewrite step_splat.
  - apply IH.
Qed.

(** Keywords with other names leave the entry of [n] alone. *)
Lemma fold_get_other parent kws d n :
  Forall (fun kw => arg kw <> Some n) kws ->
  dict_get (fold_left (step parent) kws d) n = dict_get d n.
Proof.
  revert d. induction kws as [|kw kws IH]; intros d Hall; simpl; [done |].
  apply Forall_cons in Hall as [Hkw Hall]. rewrite IH by done.
  unfold comprehension_step. destruct (arg kw) as [n'|]; [| done].
  destruct (truthy (Some n')); [| done].
  apply dict_get_set_ne. congruence.
Qed.

Lemma fold_distinct parent kws names d :
  map arg kws = map Some names ->
  Forall (fun n => n <> "") names ->
  NoDup (keys d ++ names) ->
  fold_left (step parent) kws d =
  d ++ zip names (map (fun kw => resolved parent kw) kws).
Proof.
  revert names d. induction kws as [|kw kws IH]; intros names d Hargs Hne Hnd.
  - destruct names; [| done]. simpl. by rewrite app_nil_r.
  - destruct names as [|n names]; [done |]. simpl in Hargs.
    injection Hargs as Harg Hargs.
    apply Forall_cons in Hne as [Hn Hne]. simpl.
    rewrite (step_literal parent d kw n) by done.
    assert (Hfresh : n ∉ keys d).
    { apply NoDup_app in Hnd as (_ & Hdisj & _). intros Hin.
      apply (Hdisj n Hin). constructor. }
    rewrite dict_set_fresh by done.
    rewrite (IH names) ; try done.
    + by rewrite <- app_assoc.
    + unfold keys in *. rewrite map_app. simpl. by rewrite <- app_assoc.
Qed.

(** *** The properties of the specification *)

(** C4: keywords of the double-star form are skipped: the mapping is the
    one obtained from the call with these keywords removed, and every key
    of the mapping is the name of a keyword of the call. *)
Theorem splat_keywords_skipped node parent :
  get_call_keyword_arguments safe_get_expression node parent =
  get_call_keyword_arguments safe_get_expression
    (mk_Call (func node) (args node)
       (List.filter (fun kw => negb (is_splat kw)) (keywords node)))
    parent /\
  forall k,
    k ∈ keys (get_call_keyword_arguments safe_get_expression node parent) ->
    exists kw, kw ∈ keywords node /\ arg kw = Some k.
Proof.
  unfold get_call_keyword_arguments. simpl. split.
  - apply fold_skips_splats.
  - intros k [H|H]%fold_keys; [inversion H | done].
Qed.

(** C5: when every keyword of the call has a literal name and the names
    are pairwise distinct, the mapping has one entry per keyword, in the
    order of the keywords, each name bound to the resolver's result for
    its value. *)
Theorem distinct_keywords_in_order node parent names :
  map arg (keywords node) = map Some names ->
  Forall (fun n => n <> "") names ->
  NoDup names ->
  get_call_keyword_arguments safe_get_expression node parent =
  zip names (map (fun kw => resolved parent kw) (keywords node)).
Proof.
  intros Hargs Hne Hnd. unfold get_call_keyword_arguments.
  by rewrite (fold_distinct parent (keywords node) names []).
Qed.

(** C6: the mapping has exactly one entry for a name that occurs among
    the keywords, however often, and its value is the resolver's result
    for the value of the last keyword with that name. *)
Theorem repeated_keyword_last_wins node parent pre kw post n :
  keywords node = pre ++ kw :: post ->
  literal_name kw n ->
  Forall (fun kw' => arg kw' <> Some n) post ->
  dict_get (get_call_keyword_arguments safe_get_expression node parent) n =
    Some (resolved parent kw) /\
  exists d1 d2,
    get_call_keyword_arguments safe_get_expression node parent =
      d1 ++ (n, resolved parent kw) :: d2 /\
    (n ∉ keys d1) /\ (n ∉ keys d2).
Proof.
  intros Hsplit Hlit Hpost. unfold get_call_keyword_arguments.
  rewrite Hsplit, fold_left_app. simpl.
  assert (Hget : dict_get
            (fold_left (step parent) post
               (step parent (fold_left (step parent) pre []) kw)) n =
          Some (resolved parent kw)).
  { rewrite fold_get_other by done.
    rewrite (step_literal parent _ kw n) by done. apply dict_get_set_eq. }
  split; [done |].
  assert (Hnd : NoDup (keys (fold_left (step parent) post
            (step parent (fold_left (step parent) pre []) kw)))).
  { apply fold_NoDup, step_NoDup, fold_NoDup. constructor. }
  apply dict_get_Some_elem in Hget.
  apply list_elem_of_split in Hget as (d1 & d2 & Heq).
  exists d1, d2. split; [done |].
  rewrite Heq in Hnd. unfold keys in *. rewrite map_app in Hnd. simpl in Hnd.
  apply NoDup_app in Hnd as (_ & Hdisj & Hnd2).
  apply NoDup_cons in Hnd2 as [Hn2 _]. split; [| done].
  intros Hin. apply (Hdisj n Hin). constructor.
Qed.

End extractor_facts.

(** *** The properties at concrete calls *)

Section extractor_witnesses.
Import Examples.

(** [f(a=1, **kwargs)] yields exactly the entry for [a]. *)
Lemma splat_keywords_skipped_witness :
  get_call_keyword_arguments ex_resolve (call_of [kw_a1; kw_splat]) "mod" =
    [("a", ("mod", Constant 1))].
Proof.
  destruct (splat_keywords_skipped ex_resolve
              (call_of [kw_a1; kw_splat]) "mod") as [-> _].
  reflexivity.
Defined.

(** [f(a=1, b=2)] yields the two entries in that order. *)
Lemma distinct_keywords_in_order_witness :
  get_call_keyword_arguments ex_resolve (call_of [kw_a1; kw_b2]) "mod" =
    [("a", ("mod", Constant 1)); ("b", ("mod", Constant 2))].
Proof.
  rewrite (distinct_keywords_in_order ex_resolve
             (call_of [kw_a1; kw_b2]) "mod" ["a"; "b"]).
  - reflexivity.
  - reflexivity.
  - repeat constructor; discriminate.
  - apply (bool_decide_unpack _). reflexivity.
Defined.

(** [f(a=1, b=2, a=3)], as a hand-built node: one entry for [a], holding
    the last value. *)
Lemma repeated_keyword_last_wins_witness :
  dict_get
    (get_call_keyword_arguments ex_resolve
       (call_of [kw_a1; kw_b2; kw_a3]) "mod") "a" =
    Some ("mod", Constant 3) /\
  get_call_keyword_arguments ex_resolve
    (call_of [kw_a1; kw_b2; kw_a3]) "mod" =
    [("a", ("mod", Constant 3)); ("b", ("mod", Constant 2))].
Proof.
  destruct (repeated_keyword_last_wins ex_resolve
              (call_of [kw_a1; kw_b2; kw_a3]) "mod"
              [kw_a1; kw_b2] kw_a3 [] "a") as [Hget _].
  - reflexivity.
  - split; [reflexivity | discriminate].
  - constructor.
  - split; [exact Hget | reflexivity].
Defined.

End extractor_witnesses.
End ParametersFacts.

(** ** Further laws of the logger registry *)

Module LoggerLaws.
Import PyDict PyDictFacts Logger LoggerFacts.

Section registry_laws.
Context {Backend Attr Exn : Type}.
Variable getattr : Backend -> string -> @outcome Exn Attr.
Variable getLogger : @factory Backend Exn.

Implicit Types (m : @memory Backend Exn) (f g : @factory Backend Exn).
Implicit Types (h : loc) (n name : string) (b : Backend).
Implicit Types (items : list (string * loc)).

(** The memory after the loop differs from the one before in the heap
    only. *)
Lemma patch_instances_snd f items m :
  snd (patch_instances f items m) =
  mk_memory (heap (snd (patch_instances f items m)))
            (_instances m) (_default_logger m).
Proof.
  destruct (patch_instances_frame f items m) as (Hi & Hd & _).
  destruct (snd (patch_instances f items m)) as [hp its d].
  simpl in *. by subst.
Qed.

Lemma _patch_loggers_returns f m :
  returns_on f (_instances m) ->
  _patch_loggers f m =
  (Returned tt,
   mk_memory (heap (snd (patch_instances f (_instances m) m)))
             (_instances m) f).
Proof.
  intros Hok. rewrite _patch_loggers_unfold.
  pose proof (patch_instances_returns f (_instances m) m Hok) as Hret.
  pose proof (patch_instances_snd f (_instances m) m) as Hsnd.
  destruct (patch_instances f (_instances m) m) as [[[]|e] m1];
    simpl in *; [| done].
  by rewrite Hsnd.
Qed.

Lemma _patch_loggers_returned_inv f m :
  fst (_patch_loggers f m) = Returned tt -> returns_on f (_instances m).
Proof.
  rewrite _patch_loggers_unfold.
  pose proof (patch_instances_returned_inv f (_instances m) m) as Hinv.
  destruct (patch_instances f (_instances m) m) as [[[]|e] m1];
    simpl in *; [| done].
  intros _. by apply (Hinv tt).
Qed.



Lemma dict_get_snoc {V} (d : list (string * V)) k v k0 :
  dict_get (d ++ [(k, v)]) k0 =
  match dict_get d k0 with
  | Some x => Some x
  | None => if String.eqb k0 k then Some v else None
  end.
Proof.
  induction d as [|[k' v'] d IH]; simpl; [done |].
  by destruct (String.eqb k0 k').
Qed.


Lemma in_step_get name m : wf m -> in_step m -> in_step (snd (get name m)).
Proof.
  intros Hwf Hin n h.
  destruct (get_cases name m)
    as [(h0 & _ & ->)|[(b & Hn & Hb & ->)|(e & _ & _ & ->)]]; simpl.
  - apply Hin.
  - rewrite dict_get_snoc.
    destruct (dict_get (_instances m) n) as [h'|] eqn:Hget.
    + intros [= <-]. destruct (Hin n h' Hget) as (b' & Hb' & Hd').
      exists b'. split; [done |]. unfold delegate in *. simpl.
      rewrite lookup_app_l; [done |]. apply delegate_lt.
      unfold delegate. rewrite Hd'. by eexists.
    + destruct (String.eqb_spec n name) as [->|Hne]; [| done].
      intros [= <-]. exists b. split; [done |]. apply delegate_appended.
  - intros Hget. destruct (Hin n h Hget) as (b' & Hb' & Hd').
    exists b'. split; [done |]. unfold delegate in *. simpl.
    rewrite lookup_app_l; [done |]. apply delegate_lt.
    unfold delegate. rewrite Hd'. by eexists.
Qed.

Lemma in_step_patch f m :
  wf m -> fst (_patch_loggers f m) = Returned tt ->
  in_step (snd (_patch_loggers f m)).
Proof.
  intros Hwf Hret. pose proof (_patch_loggers_returned_inv f m Hret) as Hok.
  rewrite (_patch_loggers_returns f m Hok). simpl.
  intros n h Hget. simpl in Hget.
  apply dict_get_Some_elem in Hget.
  pose proof Hok as Hall. unfold returns_on in Hall.
  rewrite Forall_forall in Hall. destruct (Hall _ Hget) as [b Hb].
  simpl in Hb. exists b. split; [done |].
  destruct Hwf as (Hk & Hv & Hd).
  change (delegate (snd (patch_instances f (_instances m) m)) h = Some b).
  apply (patch_instances_rebinds f (_instances m) m n h b); try done.
  eapply Forall_impl; [exact Hd |]. intros h0. apply delegate_lt.
Qed.

(** *** Laws *)

(** X1: [get_logger] raises exactly when the name is not registered and
    the factory in use raises on it, and what it raises is the factory's
    exception: the lookup that ends [get] never fails on its own. *)
Theorem get_logger_raises_iff m name e :
  fst (get_logger name m) = Raised e <->
  dict_get (_instances m) name = None /\ _default_logger m name = Raised e.
Proof.
  unfold get_logger.
  destruct (get_cases name m)
    as [(h0 & Hr & ->)|[(b & Hn & Hb & ->)|(e' & Hn & He & ->)]]; simpl.
  - split; [done | intros [? _]; congruence].
  - split; [done | intros [_ ?]; congruence].
  - split; [intros [= ->]; done | intros [_ ?]; congruence].
Qed.

(** X2: in every memory the two functions lead to, a registered handle has
    its [_logger], so attribute access on it reaches a backend and never
    ends in the unbounded recursion of [__getattr__]. *)
Theorem registered_handle_forwards m n h :
  reachable getLogger m ->
  dict_get (_instances m) n = Some h ->
  exists b,
    delegate m h = Some b /\
    forall a, __getattr__ getattr h a m = (getattr b a, m).
Proof.
  intros Hr Hget. destruct (reachable_wf getLogger m Hr) as (_ & _ & Hd).
  rewrite Forall_forall in Hd.
  destruct (Hd h) as [b Hb].
  { apply dict_get_Some_elem in Hget. unfold values.
    apply list_elem_of_fmap. by exists (n, h). }
  exists b. split; [done |]. intros a. by apply getattr_delegate.
Qed.

(** X3: the registry only grows, and at its end: after any calls of the
    two functions the old entries are there, unchanged and in place,
    followed by the entries of the names registered since. *)
Theorem registry_append_only os m :
  exists added, _instances (run os m) = _instances m ++ added.
Proof.
  revert m. induction os as [|o os IH]; intros m; simpl.
  - exists []. by rewrite app_nil_r.
  - destruct (IH (exec o m)) as [added ->].
    destruct o as [name|f]; simpl.
    + unfold get_logger.
      destruct (get_cases name m)
        as [(h0 & _ & ->)|[(b & _ & _ & ->)|(e & _ & _ & ->)]]; simpl.
      * by exists added.
      * exists ((name, length (heap m)) :: added). by rewrite <- app_assoc.
      * by exists added.
    + unfold patch_loggers. rewrite _patch_loggers_instances. by exists added.
Qed.



(** X6: as long as every call of [patch_loggers] returns, the handles and
    the factory stay in step: each registered handle delegates to the
    backend the factory in use gives for its name. *)
Theorem returning_patches_keep_in_step os m :
  reachable getLogger m ->
  in_step m ->
  patches_returned os m ->
  in_step (run os m).
Proof.
  intros Hr. pose proof (reachable_wf getLogger m Hr) as Hwf. clear Hr.
  revert m Hwf. induction os as [|o os IH]; intros m Hwf Hin Hpr; simpl;
    [done |].
  destruct Hpr as [Ho Hpr]. apply IH; [by apply wf_exec | | done].
  destruct o as [name|f]; simpl.
  - by apply in_step_get.
  - by apply in_step_patch.
Qed.

(** X7: calls of [get_logger] change neither the factory in use nor the
    backend any existing handle delegates to. *)
Theorem get_logger_frame os m :
  forallb is_Get os = true ->
  _default_logger (run os m) = _default_logger m /\
  forall h b, delegate m h = Some b -> delegate (run os m) h = Some b.
Proof.
  intros Hos. split.
  - by apply gets_keep_default_logger.
  - intros h b. by apply gets_keep_delegate.
Qed.

End registry_laws.

(** *** The laws at concrete histories *)

Section registry_law_witnesses.
Import Examples.

Lemma get_logger_raises_iff_witness :
  fst (get_logger "griffe.b" (initial broken_get_logger)) =
    Raised (UserError "boom").
Proof.
  apply (get_logger_raises_iff (initial broken_get_logger) "griffe.b"
           (UserError "boom")).
  split; reflexivity.
Defined.

Lemma registered_handle_forwards_witness :
  dict_get (_instances three_loggers) "griffe.c" = Some 2 /\
  exists b,
    delegate three_loggers 2 = Some b /\
    forall a,
      __getattr__ str_getattr 2 a three_loggers =
        (str_getattr b a, three_loggers).
Proof.
  split; [reflexivity |].
  apply (registered_handle_forwards str_getattr std_getLogger three_loggers
           "griffe.c" 2 three_loggers_reachable).
  reflexivity.
Defined.



Lemma returning_patches_keep_in_step_witness :
  patches_returned
    [Get "griffe.a"; Patch mkdocs_get_logger; Get "griffe.b"]
    (initial std_getLogger) /\
  in_step
    (run [Get "griffe.a"; Patch mkdocs_get_logger; Get "griffe.b"]
       (initial std_getLogger)).
Proof.
  assert (Hpr : patches_returned
            [Get "griffe.a"; Patch mkdocs_get_logger; Get "griffe.b"]
            (initial std_getLogger)).
  { simpl. repeat split. }
  split; [exact Hpr |].
  apply (returning_patches_keep_in_step std_getLogger); [| | exact Hpr].
  - exists []. reflexivity.
  - intros n h Hget. discriminate Hget.
Defined.

Lemma get_logger_frame_witness :
  _default_logger (run [Get "griffe.d"; Get "griffe.a"] three_loggers) =
    _default_logger three_loggers /\
  delegate (run [Get "griffe.d"; Get "griffe.a"] three_loggers) 1 =
    Some "logging:griffe.b".
Proof.
  destruct (get_logger_frame [Get "griffe.d"; Get "griffe.a"] three_loggers
              eq_refl) as [Hf Hd].
  split; [exact Hf |]. apply Hd. reflexivity.
Defined.

End registry_law_witnesses.
End LoggerLaws.

(** ** Further laws of the call-keyword extractor *)

Module ParametersLaws.
Import PyDict PyDictFacts Parameters ParametersFacts.

Section extractor_laws.
Context {expr Scope Resolved : Type}.
Variable safe_get_expression : expr -> Scope -> Resolved.

Implicit Types (kw : @keyword expr) (kws : list (@keyword expr)).
Implicit Types (node : @Call expr) (parent : Scope).
Implicit Types (d : list (string * Resolved)) (n k : string).
Implicit Types (P Q : string -> bool) (l : list string).

Abbreviation step := (comprehension_step safe_get_expression).
Abbreviation resolved parent kw := (safe_get_expression (value kw) parent).

(** The names not among [seen]. *)
Abbreviation unseen seen := (fun y : string => negb (bool_decide (y ∈ seen))).

Lemma step_kept parent d kw :
  step parent d kw =
  match kept_name kw with
  | Some n => dict_set n (resolved parent kw) d
  | None => d
  end.
Proof.
  unfold comprehension_step, kept_name. destruct (arg kw) as [n|]; [| done].
  by destruct (truthy (Some n)).
Qed.

Lemma dict_get_set d k v k0 :
  dict_get (dict_set k v d) k0 =
  if String.eqb k k0 then Some v else dict_get d k0.
Proof.
  destruct (String.eqb_spec k k0) as [->|Hne].
  - apply dict_get_set_eq.
  - apply dict_get_set_ne. congruence.
Qed.

Lemma fold_lookup parent kws k :
  dict_get (fold_left (step parent) kws []) k =
  option_map (fun kw => resolved parent kw) (List.find (binds k) (rev kws)).
Proof.
  induction kws as [|kw kws IH] using rev_ind; [done |].
  rewrite fold_left_app, rev_unit. simpl. rewrite step_kept.
  unfold binds at 1. destruct (kept_name kw) as [n|]; [| done].
  rewrite dict_get_set. by destruct (String.eqb n k).
Qed.

Lemma filter_absorb P Q l :
  (forall y, P y = true -> Q y = true) ->
  List.filter P (List.filter Q l) = List.filter P l.
Proof.
  intros HPQ. induction l as [|x l IH]; simpl; [done |].
  destruct (Q x) eqn:HQ; simpl.
  - by rewrite IH.
  - destruct (P x) eqn:HP; [| done]. apply HPQ in HP. congruence.
Qed.

Lemma filter_both P Q l :
  List.filter P (List.filter Q l) = List.filter (fun y => P y && Q y) l.
Proof.
  induction l as [|x l IH]; simpl; [done |].
  destruct (Q x) eqn:HQ; simpl.
  - destruct (P x); simpl; by rewrite IH.
  - by rewrite andb_false_r.
Qed.

Lemma filter_all P l :
  (forall y, P y = true) -> List.filter P l = l.
Proof.
  intros HP. induction l as [|x l IH]; simpl; [done |].
  by rewrite HP, IH.
Qed.

Lemma unseen_snoc seen n y :
  unseen (seen ++ [n]) y = unseen seen y && negb (String.eqb y n).
Proof.
  destruct (String.eqb_spec y n) as [->|Hne]; simpl.
  - rewrite bool_decide_eq_true_2.
    + simpl. by rewrite andb_false_r.
    + apply elem_of_app. right. by apply list_elem_of_singleton.
  - rewrite andb_true_r. f_equal. apply bool_decide_ext.
    rewrite elem_of_app, list_elem_of_singleton. tauto.
Qed.

(** The keys after the comprehension: those of the start, then the new
    names in the order in which they first occur. *)
Lemma fold_keys_order parent kws d :
  keys (fold_left (step parent) kws d) =
  keys d ++
  List.filter (unseen (keys d)) (first_occurrences (omap kept_name kws)).
Proof.
  revert d. induction kws as [|kw kws IH]; intros d; simpl.
  - by rewrite app_nil_r.
  - rewrite IH, step_kept. destruct (kept_name kw) as [n|]; [| done].
    simpl. destruct (decide (n ∈ keys d)) as [Hin|Hnin].
    + rewrite dict_set_keys_present by done.
      rewrite bool_decide_eq_true_2 by done. simpl. f_equal.
      symmetry. apply filter_absorb. intros y Hy.
      destruct (String.eqb_spec y n) as [->|]; [| done].
      rewrite bool_decide_eq_true_2 in Hy by done. done.
    + rewrite dict_set_fresh by done.
      replace (keys (d ++ [(n, resolved parent kw)])) with (keys d ++ [n])
        by (unfold keys; by rewrite map_app).
      rewrite bool_decide_eq_false_2 by done. simpl.
      rewrite <- app_assoc. simpl. do 2 f_equal.
      rewrite filter_both. apply List.filter_ext. intros y.
      apply unseen_snoc.
Qed.

Lemma fold_keys_from_empty parent kws :
  keys (fold_left (step parent) kws []) =
  first_occurrences (omap kept_name kws).
Proof.
  rewrite fold_keys_order. simpl. by apply filter_all.
Qed.

Lemma first_occurrences_nil l : first_occurrences l = [] <-> l = [].
Proof. by destruct l. Qed.

Lemma omap_kept_nil kws :
  omap kept_name kws = [] <-> Forall (fun kw => kept_name kw = None) kws.
Proof.
  induction kws as [|kw kws IH]; simpl.
  - split; [constructor | done].
  - destruct (kept_name kw) as [n|] eqn:E.
    + split; [done |]. intros H. apply Forall_cons in H as [H _]. congruence.
    + rewrite IH. split; [by constructor |].
      intros H. by apply Forall_cons in H as [_ H].
Qed.

(** *** Laws *)

(** X8: looking a name up in the mapping gives the resolver's result for
    the value of the last keyword stored under that name, and nothing
    when no keyword is stored under it. *)
Theorem lookup_is_last_binding node parent k :
  dict_get (get_call_keyword_arguments safe_get_expression node parent) k =
  option_map (fun kw => resolved parent kw)
    (List.find (binds k) (rev (keywords node))).
Proof. unfold get_call_keyword_arguments. apply fold_lookup. Qed.

(** X9: the keys of the mapping are the names of the stored keywords, each
    once, in the order in which the names first occur in the call. *)
Theorem keys_in_first_occurrence_order node parent :
  keys (get_call_keyword_arguments safe_get_expression node parent) =
  first_occurrences (omap kept_name (keywords node)).
Proof. unfold get_call_keyword_arguments. apply fold_keys_from_empty. Qed.

(** X10: the mapping is empty exactly when no keyword of the call is
    stored, that is when each one is of the double-star form or has an
    empty name; a call without keywords is the first case of this. *)
Theorem empty_iff_nothing_kept node parent :
  get_call_keyword_arguments safe_get_expression node parent = [] <->
  Forall (fun kw => kept_name kw = None) (keywords node).
Proof.
  rewrite <- omap_kept_nil, <- first_occurrences_nil.
  unfold get_call_keyword_arguments.
  rewrite <- (fold_keys_from_empty parent (keywords node)). unfold keys.
  destruct (fold_left (step parent) (keywords node) []); simpl; split; done.
Qed.

End extractor_laws.

(** *** The laws at concrete calls *)

Section extractor_law_witnesses.
Import Examples.

(** [f(a=1, b=2, **kwargs, a=3)], as a hand-built node. *)
Lemma lookup_is_last_binding_witness :
  dict_get
    (get_call_keyword_arguments ex_resolve
       (call_of [kw_a1; kw_b2; kw_splat; kw_a3]) "mod") "a" =
    Some ("mod", Constant 3) /\
  dict_get
    (get_call_keyword_arguments ex_resolve
       (call_of [kw_a1; kw_b2; kw_splat; kw_a3]) "mod") "kwargs" = None.
Proof.
  split.
  - rewrite (lookup_is_last_binding ex_resolve
               (call_of [kw_a1; kw_b2; kw_splat; kw_a3]) "mod" "a").
    reflexivity.
  - rewrite (lookup_is_last_binding ex_resolve
               (call_of [kw_a1; kw_b2; kw_splat; kw_a3]) "mod" "kwargs").
    reflexivity.
Defined.

Lemma keys_in_first_occurrence_order_witness :
  keys (get_call_keyword_arguments ex_resolve
          (call_of [kw_b2; kw_a1; kw_splat; kw_b2; kw_a3]) "mod") =
    ["b"; "a"].
Proof.
  rewrite (keys_in_first_occurrence_order ex_resolve
             (call_of [kw_b2; kw_a1; kw_splat; kw_b2; kw_a3]) "mod").
  reflexivity.
Defined.

Lemma empty_iff_nothing_kept_witness :
  get_call_keyword_arguments ex_resolve
    (call_of [kw_splat; mk_keyword (Some "") (Constant 0)]) "mod" = [].
Proof.
  apply (empty_iff_nothing_kept ex_resolve
           (call_of [kw_splat; mk_keyword (Some "") (Constant 0)]) "mod").
  repeat constructor.
Defined.

End extractor_law_witnesses.
End ParametersLaws.

(** ** The log levels *)

Module LevelsFacts.
Import Levels.

(** X11: no two log levels have the same value, so the enumeration has
    its seven members and none of them is an alias of another. *)
Theorem value_injective (l1 l2 : LogLevel) :
  value l1 = value l2 -> l1 = l2.
Proof. destruct l1, l2; simpl; intros H; (reflexivity || discriminate H). Qed.

Lemma value_injective_witness :
  value warning = value warning /\ warning = warning.
Proof.
  split; [reflexivity |]. apply (value_injective warning warning).
  reflexivity.
Defined.

End LevelsFacts.
